(** * Quality-control masking of NEXRAD reflectivity (nexrad_sample.py)

    The script's processing cell (lines 98-111) reads three fields of the
    lowest sweep and masks the reflectivity with three polarimetric
    threshold tests:

        reflow     = np.less(refl_grid, 20)
        zdrhigh    = np.greater(np.abs(zdr_grid), 2.3)
        rhohvlow   = np.less(rhohv_grid, 0.95)
        notweather = np.logical_or(reflow, np.logical_or(zdrhigh, rhohvlow))
        qcrefl_grid = ma.masked_where(notweather, refl_grid)

    The development has two layers.  Module [Np] gives the value-level
    meaning of the numpy calls on two-dimensional arrays (element-wise
    functions, broadcasting, masked arrays).  Module [Py] runs the same
    lines over a store of array objects addressed by reference, as the
    interpreter does, so that mutation and aliasing can be stated.  A
    refinement lemma connects the two.

    The three fields are taken as the decoder's plain two-dimensional
    arrays of numbers.  Cells are IEEE binary64 numbers (Python floats);
    the comparisons are the primitive ones, so a NaN cell fails every
    threshold test. *)

From Stdlib Require Import List Arith Lia Bool Floats.
From Stdlib Require String ZArith.
Import ListNotations.

Set Warnings "-inexact-float".

(** ** Exceptions *)

(** The exceptions the modelled calls can raise: [ValueError] is numpy's
    "operands could not be broadcast together", [IndexError] is
    masked_where's "Inconsistent shape between the condition and the
    input", [TypeError] stands for a name bound to an object of the wrong
    kind (store level only). *)
Inductive exn : Type := ValueError | IndexError | TypeError.

Inductive result (A : Type) : Type :=
| Ok (a : A)
| Raise (e : exn).

Arguments Ok {A} a.
Arguments Raise {A} e.

Definition rbind {A B : Type} (r : result A) (k : A -> result B) : result B :=
  match r with
  | Ok a => k a
  | Raise e => Raise e
  end.

(** ** List helpers *)

Fixpoint zip_with {A B C : Type} (f : A -> B -> C) (l1 : list A) (l2 : list B)
  : list C :=
  match l1, l2 with
  | x :: l1', y :: l2' => f x y :: zip_with f l1' l2'
  | _, _ => []
  end.

(** Stretching an axis of length one to length [n]; an axis of any other
    length is left alone (numpy's broadcasting of one axis). *)
Definition stretch {A : Type} (n : nat) (l : list A) : list A :=
  match l with
  | [x] => repeat x n
  | _ => l
  end.

(** ** Value-level numpy *)

Module Np.

(** A two-dimensional array: its shape (rays, gates) and its rows. *)
Record ndarray (A : Type) : Type := mk_ndarray {
  shape : nat * nat;
  rows : list (list A)
}.

Arguments mk_ndarray {A} shape rows.
Arguments shape {A} n.
Arguments rows {A} n.

(** Every array numpy builds is rectangular and agrees with its shape. *)
Definition wf {A : Type} (a : ndarray A) : Prop :=
  length (rows a) = fst (shape a) /\
  Forall (fun r => length r = snd (shape a)) (rows a).

(** np.array on a nested list literal. *)
Definition array {A : Type} (l : list (list A)) : ndarray A :=
  mk_ndarray (length l, match l with [] => 0 | r :: _ => length r end) l.

(** a[i][j], for indices counted from zero. *)
Definition getitem {A : Type} (a : ndarray A) (i j : nat) : option A :=
  match nth_error (rows a) i with
  | Some r => nth_error r j
  | None => None
  end.


(** A unary element-wise function (also a binary one whose other operand
    is a Python scalar, which broadcasts to every cell). *)
Definition ufunc1 {A B : Type} (f : A -> B) (a : ndarray A) : ndarray B :=
  mk_ndarray (shape a) (map (map f) (rows a)).

(** numpy's rule for one axis: equal lengths, or one of them is 1. *)
Definition broadcast_dim (m n : nat) : option nat :=
  if m =? n then Some m
  else if m =? 1 then Some n
  else if n =? 1 then Some m
  else None.

Definition broadcast_shapes (s1 s2 : nat * nat) : option (nat * nat) :=
  match broadcast_dim (fst s1) (fst s2), broadcast_dim (snd s1) (snd s2) with
  | Some r, Some c => Some (r, c)
  | _, _ => None
  end.

(** The three shapes broadcast together, the way line 107 nests the two
    calls of logical_or. *)
Definition broadcast3 (s_refl s_zdr s_rhohv : nat * nat) : option (nat * nat) :=
  match broadcast_shapes s_zdr s_rhohv with
  | Some s => broadcast_shapes s_refl s
  | None => None
  end.

(** The index at which an operand whose axis has length [n] is read for
    cell [i] of the broadcast result: an axis of length 1 is read at 0. *)
Definition bcast_index (n i : nat) : nat := if n =? 1 then 0 else i.

(** a[i][j] as the broadcast result reads it. *)
Definition bcast_getitem {A : Type} (a : ndarray A) (i j : nat) : option A :=
  getitem a (bcast_index (fst (shape a)) i) (bcast_index (snd (shape a)) j).

(** Two lengths of one axis that cannot be broadcast: they differ and
    neither is 1. *)
Definition clash (m n : nat) : Prop := m <> n /\ m <> 1 /\ n <> 1.

Definition shapes_clash (s1 s2 : nat * nat) : Prop :=
  clash (fst s1) (fst s2) \/ clash (snd s1) (snd s2).

(** A binary element-wise function on two arrays: the operands are
    broadcast against each other, or ValueError is raised. *)
Definition ufunc2 {A B C : Type} (f : A -> B -> C)
  (a : ndarray A) (b : ndarray B) : result (ndarray C) :=
  match broadcast_shapes (shape a) (shape b) with
  | Some (r, c) =>
      Ok (mk_ndarray (r, c)
            (zip_with (fun ra rb => zip_with f (stretch c ra) (stretch c rb))
               (stretch r (rows a)) (stretch r (rows b))))
  | None => Raise ValueError
  end.

(** np.less(a, s), np.greater(a, s), np.abs(a), np.logical_or(a, b). *)
Definition less (a : ndarray float) (s : float) : ndarray bool :=
  ufunc1 (fun x => PrimFloat.ltb x s) a.

Definition greater (a : ndarray float) (s : float) : ndarray bool :=
  ufunc1 (fun x => PrimFloat.ltb s x) a.

Definition abs (a : ndarray float) : ndarray float :=
  ufunc1 PrimFloat.abs a.

Definition logical_or (a b : ndarray bool) : result (ndarray bool) :=
  ufunc2 orb a b.

(** *** numpy.ma *)

(** A masked array: the data and the mask; [None] is numpy's [nomask],
    the mask of an array with no masked cell. *)
Record MaskedArray : Type := mk_MaskedArray {
  ma_data : ndarray float;
  ma_mask : option (ndarray bool)
}.

(** make_mask(condition, shrink=False) on an array that is already
    boolean keeps it as it is. *)
Definition make_mask (m : ndarray bool) : ndarray bool := m.

(** _shrink_mask: a mask with no true cell becomes nomask. *)
Definition shrink_mask (m : ndarray bool) : option (ndarray bool) :=
  if existsb (existsb (fun b : bool => b)) (rows m) then Some m else None.

Definition shape_eqb (s1 s2 : nat * nat) : bool :=
  (fst s1 =? fst s2) && (snd s1 =? snd s2).

(** ma.masked_where(condition, a) with its default copy=True, on a plain
    array [a]: the shapes must be equal (the condition of a 2-D array is
    never the empty tuple), the data are a copy of [a], the mask is the
    condition. *)
Definition masked_where (condition : ndarray bool) (a : ndarray float)
  : result MaskedArray :=
  let cond := make_mask condition in
  if shape_eqb (shape cond) (shape a)
  then Ok (mk_MaskedArray a (shrink_mask cond))
  else Raise IndexError.

(** ma.getdata and ma.getmaskarray. *)
Definition getdata (m : MaskedArray) : ndarray float := ma_data m.

Definition getmaskarray (m : MaskedArray) : ndarray bool :=
  match ma_mask m with
  | Some k => k
  | None =>
      mk_ndarray (shape (ma_data m))
        (map (map (fun _ : float => false)) (rows (ma_data m)))
  end.

(** What indexing a masked array gives: the constant [masked], or a
    number. *)
Inductive ma_item : Type :=
| masked
| number (x : float).

Definition ma_getitem (m : MaskedArray) (i j : nat) : option ma_item :=
  match getitem (getmaskarray m) i j, getitem (ma_data m) i j with
  | Some true, Some _ => Some masked
  | Some false, Some x => Some (number x)
  | _, _ => None
  end.


(** *** The script's processing cell, lines 104-110 *)

Definition reflow (refl_grid : ndarray float) : ndarray bool :=
  less refl_grid 20%float.

Definition zdrhigh (zdr_grid : ndarray float) : ndarray bool :=
  greater (abs zdr_grid) 2.3%float.

Definition rhohvlow (rhohv_grid : ndarray float) : ndarray bool :=
  less rhohv_grid 0.95%float.

Definition notweather (refl_grid zdr_grid rhohv_grid : ndarray float)
  : result (ndarray bool) :=
  rbind (logical_or (zdrhigh zdr_grid) (rhohvlow rhohv_grid))
    (fun inner => logical_or (reflow refl_grid) inner).

Definition qcrefl_grid (refl_grid zdr_grid rhohv_grid : ndarray float)
  : result MaskedArray :=
  rbind (notweather refl_grid zdr_grid rhohv_grid)
    (fun m => masked_where m refl_grid).

End Np.

(** ** Store-level numpy: objects, references and allocation *)

Module Py.

Definition loc : Type := nat.

(** The objects of the processing cell: an array of numbers, an array of
    booleans, and a masked array, which refers to its data and to its mask
    ([None] is nomask). *)
Inductive obj : Type :=
| ONumbers (a : Np.ndarray float)
| OFlags (a : Np.ndarray bool)
| OMasked (data : loc) (mask : option loc).

Definition store : Type := list obj.

(** A computation takes the store and returns the store it leaves, also
    when it raises, and a value or an exception. *)
Definition M (A : Type) : Type := store -> store * result A.

Definition ret {A : Type} (a : A) : M A := fun s => (s, Ok a).

Definition raise {A : Type} (e : exn) : M A := fun s => (s, Raise e).

Definition bind {A B : Type} (m : M A) (k : A -> M B) : M B :=
  fun s =>
    match m s with
    | (s', Ok a) => k a s'
    | (s', Raise e) => (s', Raise e)
    end.

Notation "x <- m ;; k" := (bind m (fun x => k))
  (at level 61, m at next level, right associativity).

(** A new object gets the next free reference. *)
Definition new (o : obj) : M loc := fun s => (s ++ [o], Ok (length s)).

Definition numbers (l : loc) : M (Np.ndarray float) :=
  fun s =>
    match nth_error s l with
    | Some (ONumbers a) => (s, Ok a)
    | _ => (s, Raise TypeError)
    end.

Definition flags (l : loc) : M (Np.ndarray bool) :=
  fun s =>
    match nth_error s l with
    | Some (OFlags a) => (s, Ok a)
    | _ => (s, Raise TypeError)
    end.

Definition lift {A : Type} (r : result A) : M A := fun s => (s, r).

(** Every numpy function of the cell reads its operands and returns a
    new array. *)
Definition less (x : loc) (s : float) : M loc :=
  a <- numbers x ;; new (OFlags (Np.less a s)).

Definition greater (x : loc) (s : float) : M loc :=
  a <- numbers x ;; new (OFlags (Np.greater a s)).

Definition abs (x : loc) : M loc :=
  a <- numbers x ;; new (ONumbers (Np.abs a)).

Definition logical_or (x y : loc) : M loc :=
  a <- flags x ;;
  b <- flags y ;;
  m <- lift (Np.logical_or a b) ;;
  new (OFlags m).

(** ma.masked_where: the copy of [a] is made before the shapes are
    compared; the result is a view of the copy, with a mask of its own. *)
Definition masked_where (condition a : loc) : M loc :=
  cond <- flags condition ;;
  arr <- numbers a ;;
  data <- new (ONumbers arr) ;;
  if Np.shape_eqb (Np.shape (Np.make_mask cond)) (Np.shape arr)
  then
    mask <- match Np.shrink_mask (Np.make_mask cond) with
            | Some k => (l <- new (OFlags k) ;; ret (Some l))
            | None => ret None
            end ;;
    new (OMasked data mask)
  else raise IndexError.

(** Lines 104-107. *)
Definition notweather (refl_grid zdr_grid rhohv_grid : loc) : M loc :=
  reflow <- less refl_grid 20%float ;;
  abszdr <- abs zdr_grid ;;
  zdrhigh <- greater abszdr 2.3%float ;;
  rhohvlow <- less rhohv_grid 0.95%float ;;
  inner <- logical_or zdrhigh rhohvlow ;;
  logical_or reflow inner.

(** Lines 104-110: the mask, then the masked reflectivity. *)
Definition qcrefl_grid (refl_grid zdr_grid rhohv_grid : loc) : M loc :=
  nw <- notweather refl_grid zdr_grid rhohv_grid ;;
  masked_where nw refl_grid.

(** Reading results back from the store. *)
Definition numbers_at (s : store) (l : loc) : option (Np.ndarray float) :=
  match nth_error s l with
  | Some (ONumbers a) => Some a
  | _ => None
  end.

Definition flags_at (s : store) (l : loc) : option (Np.ndarray bool) :=
  match nth_error s l with
  | Some (OFlags a) => Some a
  | _ => None
  end.

Definition masked_at (s : store) (l : loc) : option Np.MaskedArray :=
  match nth_error s l with
  | Some (OMasked d m) =>
      match numbers_at s d, m with
      | Some a, None => Some (Np.mk_MaskedArray a None)
      | Some a, Some k =>
          match flags_at s k with
          | Some f => Some (Np.mk_MaskedArray a (Some f))
          | None => None
          end
      | None, _ => None
      end
  | _ => None
  end.

(** The value a run ends with: the array the returned reference holds in
    the final store, or the exception. *)
Definition flags_of (r : store * result loc) : result (Np.ndarray bool) :=
  match r with
  | (s, Ok l) =>
      match flags_at s l with
      | Some a => Ok a
      | None => Raise TypeError
      end
  | (_, Raise e) => Raise e
  end.

Definition masked_of (r : store * result loc) : result Np.MaskedArray :=
  match r with
  | (s, Ok l) =>
      match masked_at s l with
      | Some a => Ok a
      | None => Raise TypeError
      end
  | (_, Raise e) => Raise e
  end.

(** A store extends another: the old objects are all there, unchanged,
    and the rest is new. *)
Definition extends (s' s : store) : Prop := exists ext, s' = s ++ ext.

(** A computation that, from every store, leaves an extension of it. *)
Definition frame {A : Type} (m : M A) : Prop :=
  forall s, extends (fst (m s)) s.

End Py.

(** ** The grids of the test scenarios *)

Module Samples.

Local Open Scope float_scope.

Definition refl_a : Np.ndarray float := Np.array [[25; 15]].
Definition zdr_a : Np.ndarray float := Np.array [[1.0; 1.0]].
Definition rhohv_a : Np.ndarray float := Np.array [[0.98; 0.98]].

Definition refl_b : Np.ndarray float := Np.array [[25; 25]].
Definition zdr_b : Np.ndarray float := Np.array [[1.0; 3.0]].

(** Two rays of two gates, against the single ray of [refl_a]. *)
Definition zdr_2x2 : Np.ndarray float := Np.array [[1.0; 1.0]; [3.0; 1.0]].
Definition rhohv_2x2 : Np.ndarray float :=
  Np.array [[0.98; 0.98]; [0.98; 0.98]].

Definition mask_a : Np.ndarray bool := Np.array [[false; true]].

(** The store of a run that has read the three fields of scenario a. *)
Definition store_a : Py.store :=
  [Py.ONumbers refl_a; Py.ONumbers rhohv_a; Py.ONumbers zdr_a].

(** The same fields among other objects, at other references. *)
Definition store_a' : Py.store :=
  [Py.OFlags mask_a; Py.ONumbers zdr_a; Py.ONumbers refl_b;
   Py.ONumbers refl_a; Py.ONumbers rhohv_a].

End Samples.

(** ** The processing cell with its print statements, lines 99-111 *)

Module Cell.

Import Np.

(** A shape fits another when, axis by axis, its length is the other's or
    is 1: such an operand is broadcast up to the other shape. *)
Definition fits (s t : nat * nat) : Prop :=
  (fst s = fst t \/ fst s = 1) /\ (snd s = snd t \/ snd s = 1).

(** a[i] on a two-dimensional array: the row, or IndexError when the
    first axis has no index [i]. *)
Definition getrow {A : Type} (a : ndarray A) (i : nat) : result (list A) :=
  match nth_error (rows a) i with
  | Some r => Ok r
  | None => Raise IndexError
  end.

(** m[i] on a masked array: the row of the data, each cell with its flag
    from the row of the mask; under nomask no cell is flagged. *)
Definition ma_getrow (m : MaskedArray) (i : nat) : result (list ma_item) :=
  rbind (getrow (ma_data m) i) (fun d =>
    match ma_mask m with
    | None => Ok (map number d)
    | Some k =>
        rbind (getrow k i) (fun f =>
          Ok (zip_with (fun x (b : bool) => if b then masked else number x)
                d f))
    end).

(** What a print statement of the cell writes. *)
Inductive printed : Type :=
| PNumbers (r : list float)
| PFlags (r : list bool)
| PMasked (r : list ma_item).

(** A computation that prints: what it has written so far, also when it
    raises, and a value or an exception. *)
Definition Out (A : Type) : Type := list printed * result A.

Definition oret {A : Type} (a : A) : Out A := ([], Ok a).

Definition olift {A : Type} (r : result A) : Out A := ([], r).

Definition print (p : printed) : Out unit := ([p], Ok tt).

Definition obind {A B : Type} (m : Out A) (k : A -> Out B) : Out B :=
  match m with
  | (o, Ok a) => (o ++ fst (k a), snd (k a))
  | (o, Raise e) => (o, Raise e)
  end.

Notation "x <- m ;; k" := (obind m (fun x => k))
  (at level 61, m at next level, right associativity).

(** Lines 99-111, from the three fields on. *)
Definition cell5 (refl_grid rhohv_grid zdr_grid : ndarray float)
  : Out MaskedArray :=
  row <- olift (getrow refl_grid 0) ;;
  _ <- print (PNumbers row) ;;
  notweather <- olift (Np.notweather refl_grid zdr_grid rhohv_grid) ;;
  row <- olift (getrow notweather 0) ;;
  _ <- print (PFlags row) ;;
  qcrefl_grid <- olift (masked_where notweather refl_grid) ;;
  row <- olift (ma_getrow qcrefl_grid 0) ;;
  _ <- print (PMasked row) ;;
  oret qcrefl_grid.

End Cell.

(** ** The two plotting loops, lines 71-87 and 122-134 *)

Module Plots.

Import Stdlib.Strings.String Stdlib.ZArith.BinInt.

Local Open Scope string_scope.













End Plots.

(** * Facts about the list helpers *)

Section ListFacts.

Context {A B C : Type}.
Variable f : A -> B -> C.

Lemma zip_with_length (l1 : list A) (l2 : list B) :
  length (zip_with f l1 l2) = Nat.min (length l1) (length l2).
Proof.
  revert l2; induction l1 as [|x l1 IH]; intros [|y l2]; simpl; auto.
Qed.

Lemma nth_error_zip_with (l1 : list A) (l2 : list B) (i : nat) :
  nth_error (zip_with f l1 l2) i =
  match nth_error l1 i, nth_error l2 i with
  | Some x, Some y => Some (f x y)
  | _, _ => None
  end.
Proof.
  revert l2 i; induction l1 as [|x l1 IH]; intros [|y l2] [|i]; simpl; auto;
    destruct (nth_error l1 i); reflexivity.
Qed.

Lemma stretch_same (n : nat) (l : list A) :
  length l = n -> stretch n l = l.
Proof.
  intros <-. destruct l as [|x [|y l]]; reflexivity.
Qed.

Lemma stretch_length (n : nat) (l : list A) :
  length l = n \/ length l = 1 -> length (stretch n l) = n.
Proof.
  intros [H|H].
  - now rewrite stretch_same.
  - destruct l as [|x [|y l]]; try discriminate. simpl. apply repeat_length.
Qed.

End ListFacts.

(** * Facts about the value-level arrays *)

Section ArrayFacts.

Import Np.

Lemma broadcast_dim_same (n : nat) : broadcast_dim n n = Some n.
Proof. unfold broadcast_dim. now rewrite Nat.eqb_refl. Qed.

Lemma broadcast_shapes_same (s : nat * nat) : broadcast_shapes s s = Some s.
Proof.
  destruct s as [r c]. unfold broadcast_shapes. simpl.
  now rewrite !broadcast_dim_same.
Qed.

(** What a successful broadcast of one axis says about the two lengths. *)
Lemma broadcast_dim_inv (m n k : nat) :
  broadcast_dim m n = Some k ->
  (m = k \/ m = 1) /\ (n = k \/ n = 1).
Proof.
  unfold broadcast_dim.
  destruct (Nat.eqb_spec m n); [intros [= <-]; subst; auto|].
  destruct (Nat.eqb_spec m 1); [intros [= <-]; auto|].
  destruct (Nat.eqb_spec n 1); [intros [= <-]; auto|].
  discriminate.
Qed.

Lemma shape_eqb_eq (s1 s2 : nat * nat) : shape_eqb s1 s2 = true <-> s1 = s2.
Proof.
  destruct s1 as [r1 c1], s2 as [r2 c2]. unfold shape_eqb. simpl.
  rewrite andb_true_iff, !Nat.eqb_eq. split.
  - intros [-> ->]. reflexivity.
  - intros [= -> ->]. auto.
Qed.

Lemma shape_eqb_neq (s1 s2 : nat * nat) : shape_eqb s1 s2 = false <-> s1 <> s2.
Proof.
  rewrite <- shape_eqb_eq. destruct (shape_eqb s1 s2); split; congruence.
Qed.

Lemma wf_getitem {A : Type} (a : ndarray A) (i j : nat) :
  wf a -> i < fst (shape a) -> j < snd (shape a) ->
  exists x, getitem a i j = Some x.
Proof.
  intros [Hr Hc] Hi Hj. unfold getitem.
  destruct (nth_error (rows a) i) as [r|] eqn:E.
  - rewrite Forall_forall in Hc.
    specialize (Hc r (nth_error_In _ _ E)).
    destruct (nth_error r j) as [x|] eqn:F; [eauto|].
    apply nth_error_None in F. lia.
  - apply nth_error_None in E. lia.
Qed.


(** ** Element-wise functions *)

Lemma ufunc1_shape {A B : Type} (f : A -> B) (a : ndarray A) :
  shape (ufunc1 f a) = shape a.
Proof. reflexivity. Qed.

Lemma ufunc1_wf {A B : Type} (f : A -> B) (a : ndarray A) :
  wf a -> wf (ufunc1 f a).
Proof.
  intros [Hr Hc]. split; simpl.
  - now rewrite length_map.
  - apply Forall_map. eapply Forall_impl; [|exact Hc].
    intros r Hl. simpl in Hl. now rewrite length_map.
Qed.

Lemma ufunc1_getitem {A B : Type} (f : A -> B) (a : ndarray A) (i j : nat) :
  getitem (ufunc1 f a) i j = option_map f (getitem a i j).
Proof.
  unfold getitem, ufunc1. simpl. rewrite nth_error_map.
  destruct (nth_error (rows a) i) as [r|]; simpl; [|reflexivity].
  apply nth_error_map.
Qed.

(** On operands of one shape, a binary function works cell by cell and
    keeps the shape. *)
Lemma ufunc2_same_shape {A B C : Type} (f : A -> B -> C)
  (a : ndarray A) (b : ndarray B) :
  wf a -> wf b -> shape b = shape a ->
  exists m, ufunc2 f a b = Ok m /\ shape m = shape a /\ wf m /\
    forall i j,
      getitem m i j =
      match getitem a i j, getitem b i j with
      | Some x, Some y => Some (f x y)
      | _, _ => None
      end.
Proof.
  intros [Har Hac] [Hbr Hbc] Hs.
  unfold ufunc2. rewrite Hs, broadcast_shapes_same.
  rewrite Hs in Hbr, Hbc.
  destruct (shape a) as [r c] eqn:Es. simpl in *.
  rewrite (stretch_same r (rows a)) by assumption.
  rewrite (stretch_same r (rows b)) by assumption.
  eexists. split; [reflexivity|]. split; [reflexivity|].
  rewrite Forall_forall in Hac, Hbc.
  split.
  - split; simpl.
    + rewrite zip_with_length. lia.
    + apply Forall_forall. intros row Hin.
      apply In_nth_error in Hin. destruct Hin as [i Hi].
      rewrite nth_error_zip_with in Hi.
      destruct (nth_error (rows a) i) as [ra|] eqn:Ea; [|discriminate].
      destruct (nth_error (rows b) i) as [rb|] eqn:Eb; [|discriminate].
      injection Hi as <-.
      pose proof (Hac ra (nth_error_In _ _ Ea)).
      pose proof (Hbc rb (nth_error_In _ _ Eb)).
      rewrite !stretch_same by assumption.
      rewrite zip_with_length. lia.
  - intros i j. unfold getitem. simpl.
    rewrite nth_error_zip_with.
    destruct (nth_error (rows a) i) as [ra|] eqn:Ea;
      destruct (nth_error (rows b) i) as [rb|] eqn:Eb; try reflexivity.
    + pose proof (Hac ra (nth_error_In _ _ Ea)).
      pose proof (Hbc rb (nth_error_In _ _ Eb)).
      rewrite !stretch_same by assumption.
      apply nth_error_zip_with.
    + destruct (nth_error ra j); reflexivity.
Qed.

(** Whether a binary function raises depends on the shapes alone. *)
Lemma ufunc2_raises {A B C : Type} (f : A -> B -> C)
  (a : ndarray A) (b : ndarray B) :
  broadcast_shapes (shape a) (shape b) = None <->
  ufunc2 f a b = Raise ValueError.
Proof.
  unfold ufunc2.
  destruct (broadcast_shapes (shape a) (shape b)) as [[r c]|];
    split; congruence.
Qed.

Lemma ufunc2_shape {A B C : Type} (f : A -> B -> C)
  (a : ndarray A) (b : ndarray B) (m : ndarray C) :
  ufunc2 f a b = Ok m ->
  broadcast_shapes (shape a) (shape b) = Some (shape m).
Proof.
  unfold ufunc2.
  destruct (broadcast_shapes (shape a) (shape b)) as [[r c]|];
    [|discriminate].
  intros [= <-]. reflexivity.
Qed.

(** ** When shapes fail to broadcast *)

Lemma broadcast_dim_none (m n : nat) :
  broadcast_dim m n = None <-> clash m n.
Proof.
  unfold broadcast_dim, clash.
  destruct (Nat.eqb_spec m n); [split; [discriminate | lia]|].
  destruct (Nat.eqb_spec m 1); [split; [discriminate | lia]|].
  destruct (Nat.eqb_spec n 1); [split; [discriminate | lia]|].
  split; auto.
Qed.

Lemma broadcast_shapes_none (s1 s2 : nat * nat) :
  broadcast_shapes s1 s2 = None <-> shapes_clash s1 s2.
Proof.
  unfold broadcast_shapes, shapes_clash. rewrite <- !broadcast_dim_none.
  destruct (broadcast_dim (fst s1) (fst s2)), (broadcast_dim (snd s1) (snd s2));
    split; try discriminate; auto; intros [?|?]; discriminate.
Qed.

Lemma broadcast_dim_some (m n k : nat) :
  broadcast_dim m n = Some k ->
  forall a, clash a k <-> (clash a m \/ clash a n) /\ ~ clash m n.
Proof.
  unfold broadcast_dim, clash.
  destruct (Nat.eqb_spec m n); [intros [= <-]; intros; lia|].
  destruct (Nat.eqb_spec m 1); [intros [= <-]; intros; lia|].
  destruct (Nat.eqb_spec n 1); [intros [= <-]; intros; lia|].
  discriminate.
Qed.

Lemma broadcast3_none (a b c : nat * nat) :
  broadcast3 a b c = None <->
  shapes_clash b c \/ shapes_clash a b \/ shapes_clash a c.
Proof.
  unfold broadcast3.
  destruct (broadcast_shapes b c) as [k|] eqn:E.
  - assert (N : ~ shapes_clash b c).
    { rewrite <- broadcast_shapes_none. congruence. }
    rewrite broadcast_shapes_none.
    unfold broadcast_shapes in E.
    destruct (broadcast_dim (fst b) (fst c)) as [k1|] eqn:E1; [|discriminate].
    destruct (broadcast_dim (snd b) (snd c)) as [k2|] eqn:E2; [|discriminate].
    injection E as <-.
    pose proof (broadcast_dim_some _ _ _ E1 (fst a)) as H1.
    pose proof (broadcast_dim_some _ _ _ E2 (snd a)) as H2.
    unfold shapes_clash in *. simpl. tauto.
  - apply broadcast_shapes_none in E. tauto.
Qed.

(** ** Broadcasting *)

Lemma stretch_incl {A : Type} (n : nat) (l : list A) (x : A) :
  In x (stretch n l) -> In x l.
Proof.
  destruct l as [|y [|z l]]; simpl; auto.
  intros H. apply repeat_spec in H. auto.
Qed.

Lemma nth_error_stretch {A : Type} (n : nat) (l : list A) (i : nat) :
  length l = n \/ length l = 1 -> i < n ->
  nth_error (stretch n l) i = nth_error l (bcast_index (length l) i).
Proof.
  intros H Hi. unfold bcast_index.
  destruct (Nat.eqb_spec (length l) 1) as [E|E].
  - destruct l as [|x [|y l]]; try discriminate. simpl.
    now apply nth_error_repeat.
  - rewrite stretch_same by lia. reflexivity.
Qed.

(** A binary function on broadcast operands: the result is a rectangular
    array of the broadcast shape, and its cell (i,j) combines the cells the
    two operands are read at for (i,j). *)
Lemma ufunc2_broadcast {A B C : Type} (f : A -> B -> C)
  (a : ndarray A) (b : ndarray B) (m : ndarray C) :
  wf a -> wf b -> ufunc2 f a b = Ok m ->
  wf m /\
  forall i j, i < fst (shape m) -> j < snd (shape m) ->
    getitem m i j =
    match bcast_getitem a i j, bcast_getitem b i j with
    | Some x, Some y => Some (f x y)
    | _, _ => None
    end.
Proof.
  intros [Har Hac] [Hbr Hbc]. unfold ufunc2, broadcast_shapes.
  destruct (broadcast_dim (fst (shape a)) (fst (shape b))) as [r|] eqn:Er;
    [|discriminate].
  destruct (broadcast_dim (snd (shape a)) (snd (shape b))) as [c|] eqn:Ec;
    [|discriminate].
  intros [= <-]. simpl.
  destruct (broadcast_dim_inv _ _ _ Er) as [Ra Rb].
  destruct (broadcast_dim_inv _ _ _ Ec) as [Ca Cb].
  rewrite <- Har in Ra. rewrite <- Hbr in Rb.
  rewrite Forall_forall in Hac, Hbc.
  split.
  - split; simpl.
    + rewrite zip_with_length, !stretch_length by assumption. lia.
    + apply Forall_forall. intros row Hin.
      apply In_nth_error in Hin. destruct Hin as [i Hi].
      rewrite nth_error_zip_with in Hi.
      destruct (nth_error (stretch r (rows a)) i) as [ra|] eqn:Ea; [|discriminate].
      destruct (nth_error (stretch r (rows b)) i) as [rb|] eqn:Eb; [|discriminate].
      injection Hi as <-.
      pose proof (Hac ra (stretch_incl _ _ _ (nth_error_In _ _ Ea))) as La.
      pose proof (Hbc rb (stretch_incl _ _ _ (nth_error_In _ _ Eb))) as Lb.
      rewrite zip_with_length, !stretch_length by lia. lia.
  - intros i j Hi Hj. unfold bcast_getitem, getitem. simpl.
    rewrite nth_error_zip_with, !nth_error_stretch by assumption.
    rewrite Har, Hbr.
    destruct (nth_error (rows a) (bcast_index (fst (shape a)) i)) as [ra|] eqn:Ea;
      [|reflexivity].
    pose proof (Hac ra (nth_error_In _ _ Ea)) as La.
    destruct (nth_error (rows b) (bcast_index (fst (shape b)) i)) as [rb|] eqn:Eb.
    + pose proof (Hbc rb (nth_error_In _ _ Eb)) as Lb.
      rewrite nth_error_zip_with, !nth_error_stretch by lia.
      rewrite La, Lb. reflexivity.
    + destruct (nth_error ra _); reflexivity.
Qed.

Lemma bcast_index_lt (n k i : nat) :
  n = k \/ n = 1 -> i < k -> bcast_index n i < n.
Proof.
  unfold bcast_index. destruct (Nat.eqb_spec n 1); lia.
Qed.

(** Reading through two broadcasts is reading through one. *)
Lemma bcast_index_twice (n k i : nat) :
  n = k \/ n = 1 -> bcast_index n (bcast_index k i) = bcast_index n i.
Proof.
  unfold bcast_index.
  destruct (Nat.eqb_spec n 1); [reflexivity|].
  destruct (Nat.eqb_spec k 1); [lia | reflexivity].
Qed.

Lemma ufunc1_bcast_getitem {A B : Type} (f : A -> B) (a : ndarray A) (i j : nat) :
  bcast_getitem (ufunc1 f a) i j = option_map f (bcast_getitem a i j).
Proof. unfold bcast_getitem. now rewrite ufunc1_getitem. Qed.

Lemma wf_bcast_getitem {A : Type} (a : ndarray A) (s : nat * nat) (i j : nat) :
  wf a ->
  fst (shape a) = fst s \/ fst (shape a) = 1 ->
  snd (shape a) = snd s \/ snd (shape a) = 1 ->
  i < fst s -> j < snd s ->
  exists x, bcast_getitem a i j = Some x.
Proof.
  intros W Hr Hc Hi Hj. unfold bcast_getitem.
  apply wf_getitem; [assumption| |]; eapply bcast_index_lt; eassumption.
Qed.

(** Reading an operand of a broadcast result that is itself read by
    broadcasting is reading the operand by broadcasting. *)
Lemma bcast_getitem_twice {A B : Type} (a : ndarray A) (k : ndarray B)
  (i j : nat) :
  fst (shape a) = fst (shape k) \/ fst (shape a) = 1 ->
  snd (shape a) = snd (shape k) \/ snd (shape a) = 1 ->
  bcast_getitem a (bcast_index (fst (shape k)) i) (bcast_index (snd (shape k)) j)
  = bcast_getitem a i j.
Proof.
  intros Hr Hc. unfold bcast_getitem.
  now rewrite !bcast_index_twice.
Qed.

Lemma ufunc2_operand_shapes {A B C : Type} (f : A -> B -> C)
  (a : ndarray A) (b : ndarray B) (m : ndarray C) :
  ufunc2 f a b = Ok m ->
  (fst (shape a) = fst (shape m) \/ fst (shape a) = 1) /\
  (snd (shape a) = snd (shape m) \/ snd (shape a) = 1) /\
  (fst (shape b) = fst (shape m) \/ fst (shape b) = 1) /\
  (snd (shape b) = snd (shape m) \/ snd (shape b) = 1).
Proof.
  intros H. apply ufunc2_shape in H. unfold broadcast_shapes in H.
  destruct (broadcast_dim (fst (shape a)) (fst (shape b))) as [r|] eqn:Er;
    [|discriminate].
  destruct (broadcast_dim (snd (shape a)) (snd (shape b))) as [c|] eqn:Ec;
    [|discriminate].
  injection H as H. rewrite <- H. simpl.
  destruct (broadcast_dim_inv _ _ _ Er), (broadcast_dim_inv _ _ _ Ec). auto.
Qed.

End ArrayFacts.

(** * The mask of lines 104-107 *)

Section MaskFacts.

Import Np.

Lemma zdrhigh_getitem (zdr : ndarray float) (i j : nat) :
  getitem (zdrhigh zdr) i j =
  option_map (fun y => PrimFloat.ltb 2.3 (PrimFloat.abs y)) (getitem zdr i j).
Proof.
  unfold zdrhigh, greater, abs. rewrite !ufunc1_getitem.
  destruct (getitem zdr i j); reflexivity.
Qed.

(** On three grids of one shape the mask exists, has that shape, and each
    of its cells is the disjunction of the three tests on the cells at the
    same place. *)
Lemma notweather_same_shape (refl zdr rhohv : ndarray float) :
  wf refl -> wf zdr -> wf rhohv ->
  shape zdr = shape refl -> shape rhohv = shape refl ->
  exists mask, notweather refl zdr rhohv = Ok mask /\
    shape mask = shape refl /\ wf mask /\
    forall i j,
      getitem mask i j =
      match getitem refl i j, getitem zdr i j, getitem rhohv i j with
      | Some x, Some y, Some z =>
          Some (PrimFloat.ltb x 20
                || (PrimFloat.ltb 2.3 (PrimFloat.abs y)
                    || PrimFloat.ltb z 0.95))
      | _, _, _ => None
      end.
Proof.
  intros Wr Wz Wc Sz Sc.
  assert (Wzh : wf (zdrhigh zdr)) by (unfold zdrhigh, greater, abs; auto using ufunc1_wf).
  assert (Wcl : wf (rhohvlow rhohv)) by (unfold rhohvlow, less; auto using ufunc1_wf).
  assert (Wrl : wf (reflow refl)) by (unfold reflow, less; auto using ufunc1_wf).
  destruct (ufunc2_same_shape orb (zdrhigh zdr) (rhohvlow rhohv) Wzh Wcl)
    as (inner & Ei & Si & Wi & Gi).
  { unfold rhohvlow, zdrhigh, less, greater, abs. rewrite !ufunc1_shape. congruence. }
  destruct (ufunc2_same_shape orb (reflow refl) inner Wrl Wi)
    as (mask & Em & Sm & Wm & Gm).
  { rewrite Si. unfold reflow, zdrhigh, less, greater, abs.
    rewrite !ufunc1_shape. assumption. }
  exists mask. unfold notweather, logical_or. rewrite Ei. simpl.
  split; [exact Em|]. split; [exact Sm|]. split; [exact Wm|].
  intros i j. rewrite Gm, Gi, zdrhigh_getitem.
  unfold reflow, rhohvlow, less. rewrite !ufunc1_getitem.
  destruct (getitem refl i j), (getitem zdr i j), (getitem rhohv i j);
    reflexivity.
Qed.

(** The mask raises exactly when the shapes do not broadcast, and then it
    is ValueError. *)
Lemma notweather_raises (refl zdr rhohv : ndarray float) (e : exn) :
  notweather refl zdr rhohv = Raise e <->
  broadcast3 (shape refl) (shape zdr) (shape rhohv) = None /\ e = ValueError.
Proof.
  unfold notweather, logical_or, broadcast3, ufunc2.
  change (shape (zdrhigh zdr)) with (shape zdr).
  change (shape (rhohvlow rhohv)) with (shape rhohv).
  change (shape (reflow refl)) with (shape refl).
  destruct (broadcast_shapes (shape zdr) (shape rhohv)) as [[r c]|]; simpl.
  - destruct (broadcast_shapes (shape refl) (r, c)) as [[r' c']|];
      split; try intros [? ?]; try intros [= <-]; try discriminate; auto.
    subst; reflexivity.
  - split; [intros [= <-]; auto | intros [_ ->]; reflexivity].
Qed.

Lemma notweather_ok_shape (refl zdr rhohv : ndarray float) (mask : ndarray bool) :
  notweather refl zdr rhohv = Ok mask ->
  broadcast3 (shape refl) (shape zdr) (shape rhohv) = Some (shape mask).
Proof.
  unfold notweather, logical_or, broadcast3, ufunc2.
  change (shape (zdrhigh zdr)) with (shape zdr).
  change (shape (rhohvlow rhohv)) with (shape rhohv).
  change (shape (reflow refl)) with (shape refl).
  destruct (broadcast_shapes (shape zdr) (shape rhohv)) as [[r c]|]; simpl;
    [|discriminate].
  destruct (broadcast_shapes (shape refl) (r, c)) as [[r' c']|];
    [|discriminate].
  intros [= <-]. reflexivity.
Qed.

(** Whatever shapes broadcast together: the mask is a rectangular array of
    the broadcast shape and each of its cells is the disjunction of the
    three tests on the cells the three grids are read at for it. *)
Lemma notweather_broadcast (refl zdr rhohv : ndarray float) (mask : ndarray bool) :
  wf refl -> wf zdr -> wf rhohv ->
  notweather refl zdr rhohv = Ok mask ->
  wf mask /\
  forall i j, i < fst (shape mask) -> j < snd (shape mask) ->
    exists x y z,
      bcast_getitem refl i j = Some x /\
      bcast_getitem zdr i j = Some y /\
      bcast_getitem rhohv i j = Some z /\
      getitem mask i j =
        Some (PrimFloat.ltb x 20
              || (PrimFloat.ltb 2.3 (PrimFloat.abs y)
                  || PrimFloat.ltb z 0.95)).
Proof.
  intros Wr Wz Wc. unfold notweather, logical_or.
  destruct (ufunc2 orb (zdrhigh zdr) (rhohvlow rhohv)) as [inner|e] eqn:Ei;
    simpl; [|discriminate].
  intros Em.
  assert (Wzh : wf (zdrhigh zdr)) by (unfold zdrhigh, greater, abs; auto using ufunc1_wf).
  assert (Wcl : wf (rhohvlow rhohv)) by (unfold rhohvlow, less; auto using ufunc1_wf).
  assert (Wrl : wf (reflow refl)) by (unfold reflow, less; auto using ufunc1_wf).
  destruct (ufunc2_broadcast _ _ _ _ Wzh Wcl Ei) as [Wi Gi].
  destruct (ufunc2_broadcast _ _ _ _ Wrl Wi Em) as [Wm Gm].
  destruct (ufunc2_operand_shapes _ _ _ _ Ei) as (Zr & Zc & Cr & Cc).
  destruct (ufunc2_operand_shapes _ _ _ _ Em) as (Rr & Rc & Ir & Ic).
  change (shape (zdrhigh zdr)) with (shape zdr) in Zr, Zc.
  change (shape (rhohvlow rhohv)) with (shape rhohv) in Cr, Cc.
  change (shape (reflow refl)) with (shape refl) in Rr, Rc.
  split; [exact Wm|].
  intros i j Hi Hj.
  set (i' := bcast_index (fst (shape inner)) i).
  set (j' := bcast_index (snd (shape inner)) j).
  assert (Hi' : i' < fst (shape inner)) by (eapply bcast_index_lt; eassumption).
  assert (Hj' : j' < snd (shape inner)) by (eapply bcast_index_lt; eassumption).
  destruct (wf_bcast_getitem refl (shape mask) i j Wr Rr Rc Hi Hj) as [x Hx].
  destruct (wf_bcast_getitem zdr (shape inner) i' j' Wz Zr Zc Hi' Hj') as [y Hy].
  destruct (wf_bcast_getitem rhohv (shape inner) i' j' Wc Cr Cc Hi' Hj') as [z Hz].
  unfold i', j' in Hy, Hz.
  rewrite bcast_getitem_twice in Hy, Hz by assumption.
  exists x, y, z. repeat (split; [assumption|]).
  rewrite (Gm i j Hi Hj).
  unfold bcast_getitem at 2. fold i' j'. rewrite (Gi i' j' Hi' Hj').
  unfold i', j'.
  rewrite (bcast_getitem_twice (zdrhigh zdr) inner i j Zr Zc).
  rewrite (bcast_getitem_twice (rhohvlow rhohv) inner i j Cr Cc).
  unfold reflow, zdrhigh, rhohvlow, less, greater, abs.
  rewrite !ufunc1_bcast_getitem, Hx, Hy, Hz. reflexivity.
Qed.

End MaskFacts.

(** * The masked array of line 110 *)

Section MaskedFacts.

Import Np.

Lemma masked_where_same_shape (mask : ndarray bool) (refl : ndarray float) :
  shape mask = shape refl ->
  masked_where mask refl = Ok (mk_MaskedArray refl (shrink_mask mask)).
Proof.
  intros Hs. unfold masked_where, make_mask.
  now rewrite (proj2 (shape_eqb_eq _ _) Hs).
Qed.

Lemma masked_where_raises (mask : ndarray bool) (refl : ndarray float) (e : exn) :
  masked_where mask refl = Raise e <->
  shape mask <> shape refl /\ e = IndexError.
Proof.
  unfold masked_where, make_mask.
  destruct (shape_eqb (shape mask) (shape refl)) eqn:E.
  - apply shape_eqb_eq in E. split; [discriminate | intros [H _]; contradiction].
  - apply shape_eqb_neq in E. split; [intros [= <-]; auto | intros [_ ->]; reflexivity].
Qed.

Lemma masked_where_ok (mask : ndarray bool) (refl : ndarray float) (r : MaskedArray) :
  masked_where mask refl = Ok r ->
  shape mask = shape refl /\ r = mk_MaskedArray refl (shrink_mask mask).
Proof.
  unfold masked_where, make_mask.
  destruct (shape_eqb (shape mask) (shape refl)) eqn:E; [|discriminate].
  apply shape_eqb_eq in E. intros [= <-]. auto.
Qed.






Lemma getmaskarray_shape (mask : ndarray bool) (refl : ndarray float) :
  shape mask = shape refl ->
  shape (getmaskarray (mk_MaskedArray refl (shrink_mask mask))) = shape refl.
Proof.
  intros Hs. unfold getmaskarray, shrink_mask. simpl.
  destruct (existsb _ (rows mask)); simpl; auto.
Qed.


End MaskedFacts.

(** * The store: what a run leaves, and what it reads *)

Section StoreFacts.

Import Py.

Lemma extends_refl (s : store) : extends s s.
Proof. exists []. now rewrite app_nil_r. Qed.

Lemma extends_trans (s1 s2 s3 : store) :
  extends s3 s2 -> extends s2 s1 -> extends s3 s1.
Proof.
  intros [e2 ->] [e1 ->]. exists (e1 ++ e2). now rewrite app_assoc.
Qed.

Lemma extends_lookup (s' s : store) (l : loc) (o : obj) :
  extends s' s -> nth_error s l = Some o -> nth_error s' l = Some o.
Proof.
  intros [ext ->] H. rewrite nth_error_app1; [assumption|].
  apply nth_error_Some. congruence.
Qed.

Lemma extends_numbers_at (s' s : store) (l : loc) (a : Np.ndarray float) :
  extends s' s -> numbers_at s l = Some a -> numbers_at s' l = Some a.
Proof.
  unfold numbers_at. intros He H.
  destruct (nth_error s l) as [o|] eqn:E; [|discriminate].
  now rewrite (extends_lookup _ _ _ _ He E).
Qed.

Lemma extends_flags_at (s' s : store) (l : loc) (a : Np.ndarray bool) :
  extends s' s -> flags_at s l = Some a -> flags_at s' l = Some a.
Proof.
  unfold flags_at. intros He H.
  destruct (nth_error s l) as [o|] eqn:E; [|discriminate].
  now rewrite (extends_lookup _ _ _ _ He E).
Qed.

Lemma lookup_new (s : store) (o : obj) : nth_error (s ++ [o]) (length s) = Some o.
Proof. rewrite nth_error_app2, Nat.sub_diag by lia. reflexivity. Qed.

Lemma extends_new (s : store) (o : obj) : extends (s ++ [o]) s.
Proof. now exists [o]. Qed.

(** ** Frame: a computation only adds objects *)

Lemma frame_ret {A : Type} (a : A) : frame (ret a).
Proof. intro s. apply extends_refl. Qed.

Lemma frame_raise {A : Type} (e : exn) : frame (@raise A e).
Proof. intro s. apply extends_refl. Qed.

Lemma frame_lift {A : Type} (r : result A) : frame (lift r).
Proof. intro s. apply extends_refl. Qed.

Lemma frame_new (o : obj) : frame (new o).
Proof. intro s. apply extends_new. Qed.

Lemma frame_numbers (l : loc) : frame (numbers l).
Proof.
  intro s. unfold numbers.
  destruct (nth_error s l) as [[a|a|d m]|]; apply extends_refl.
Qed.

Lemma frame_flags (l : loc) : frame (flags l).
Proof.
  intro s. unfold flags.
  destruct (nth_error s l) as [[a|a|d m]|]; apply extends_refl.
Qed.

Lemma frame_bind {A B : Type} (m : M A) (k : A -> M B) :
  frame m -> (forall a, frame (k a)) -> frame (bind m k).
Proof.
  intros Hm Hk s. unfold bind. specialize (Hm s).
  destruct (m s) as [s' [a|e]]; simpl in *; [|assumption].
  eapply extends_trans; [apply Hk | exact Hm].
Qed.

Create HintDb frame.

Hint Resolve frame_ret frame_raise frame_lift frame_new frame_numbers
  frame_flags : frame.

Ltac frame_steps :=
  repeat first
    [ apply frame_bind; [|intro]
    | solve [auto with frame]
    | match goal with
      | |- frame (if ?c then _ else _) => destruct c
      | |- frame (match ?c with _ => _ end) => destruct c
      end ].

Lemma frame_less (x : loc) (c : float) : frame (less x c).
Proof. unfold less. frame_steps. Qed.

Lemma frame_greater (x : loc) (c : float) : frame (greater x c).
Proof. unfold greater. frame_steps. Qed.

Lemma frame_abs (x : loc) : frame (abs x).
Proof. unfold abs. frame_steps. Qed.

Lemma frame_logical_or (x y : loc) : frame (logical_or x y).
Proof. unfold logical_or. frame_steps. Qed.

Lemma frame_masked_where (c a : loc) : frame (masked_where c a).
Proof. unfold masked_where. frame_steps. Qed.

Hint Resolve frame_less frame_greater frame_abs frame_logical_or
  frame_masked_where : frame.

Lemma frame_notweather (r z c : loc) : frame (notweather r z c).
Proof. unfold notweather. frame_steps. Qed.

Lemma frame_qcrefl_grid (r z c : loc) : frame (qcrefl_grid r z c).
Proof.
  unfold qcrefl_grid. pose proof frame_notweather. frame_steps.
Qed.

(** ** Refinement: a run computes the value-level function *)

Lemma run_numbers (s : store) (l : loc) (a : Np.ndarray float) :
  numbers_at s l = Some a -> numbers l s = (s, Ok a).
Proof.
  unfold numbers_at, numbers.
  destruct (nth_error s l) as [[a'|a'|d m]|]; try discriminate.
  now intros [= ->].
Qed.

Lemma run_flags (s : store) (l : loc) (a : Np.ndarray bool) :
  flags_at s l = Some a -> flags l s = (s, Ok a).
Proof.
  unfold flags_at, flags.
  destruct (nth_error s l) as [[a'|a'|d m]|]; try discriminate.
  now intros [= ->].
Qed.

Lemma flags_at_new (s : store) (a : Np.ndarray bool) :
  flags_at (s ++ [OFlags a]) (length s) = Some a.
Proof. unfold flags_at. now rewrite lookup_new. Qed.

Lemma numbers_at_new (s : store) (a : Np.ndarray float) :
  numbers_at (s ++ [ONumbers a]) (length s) = Some a.
Proof. unfold numbers_at. now rewrite lookup_new. Qed.

Lemma run_less (s : store) (x : loc) (c : float) (a : Np.ndarray float) :
  numbers_at s x = Some a ->
  less x c s = (s ++ [OFlags (Np.less a c)], Ok (length s)).
Proof. intros H. unfold less, bind. now rewrite (run_numbers _ _ _ H). Qed.

Lemma run_greater (s : store) (x : loc) (c : float) (a : Np.ndarray float) :
  numbers_at s x = Some a ->
  greater x c s = (s ++ [OFlags (Np.greater a c)], Ok (length s)).
Proof. intros H. unfold greater, bind. now rewrite (run_numbers _ _ _ H). Qed.

Lemma run_abs (s : store) (x : loc) (a : Np.ndarray float) :
  numbers_at s x = Some a ->
  abs x s = (s ++ [ONumbers (Np.abs a)], Ok (length s)).
Proof. intros H. unfold abs, bind. now rewrite (run_numbers _ _ _ H). Qed.

Lemma run_logical_or (s : store) (x y : loc) (a b : Np.ndarray bool) :
  flags_at s x = Some a -> flags_at s y = Some b ->
  logical_or x y s =
  match Np.logical_or a b with
  | Ok m => (s ++ [OFlags m], Ok (length s))
  | Raise e => (s, Raise e)
  end.
Proof.
  intros Ha Hb. unfold logical_or, bind, lift.
  rewrite (run_flags _ _ _ Ha), (run_flags _ _ _ Hb).
  destruct (Np.logical_or a b); reflexivity.
Qed.

(** Lines 104-107 run on a store end with the value-level mask of the
    three arrays the references hold. *)
Lemma notweather_refines (s : store) (r z c : loc)
  (refl zdr rhohv : Np.ndarray float) :
  numbers_at s r = Some refl ->
  numbers_at s z = Some zdr ->
  numbers_at s c = Some rhohv ->
  flags_of (notweather r z c s) = Np.notweather refl zdr rhohv.
Proof.
  intros Hr Hz Hc. unfold notweather.
  unfold bind at 1. rewrite (run_less _ _ _ _ Hr).
  set (s1 := s ++ _).
  assert (E1 : extends s1 s) by apply extends_new.
  unfold bind at 1. rewrite (run_abs s1 z zdr) by eauto using extends_numbers_at.
  set (s2 := s1 ++ _).
  assert (E2 : extends s2 s) by (eapply extends_trans; [apply extends_new | exact E1]).
  unfold bind at 1. rewrite (run_greater s2 (length s1) _ (Np.abs zdr))
    by apply numbers_at_new.
  set (s3 := s2 ++ _).
  assert (E3 : extends s3 s) by (eapply extends_trans; [apply extends_new | exact E2]).
  unfold bind at 1. rewrite (run_less s3 c _ rhohv) by eauto using extends_numbers_at.
  set (s4 := s3 ++ _).
  assert (F3 : flags_at s4 (length s2) = Some (Np.zdrhigh zdr)).
  { eapply extends_flags_at; [apply extends_new | apply flags_at_new]. }
  assert (F4 : flags_at s4 (length s3) = Some (Np.rhohvlow rhohv))
    by apply flags_at_new.
  assert (F1 : flags_at s4 (length s) = Some (Np.reflow refl)).
  { eapply extends_flags_at; [|apply flags_at_new].
    eapply extends_trans; [apply extends_new|].
    eapply extends_trans; [apply extends_new|]. apply extends_new. }
  unfold bind at 1. rewrite (run_logical_or s4 _ _ _ _ F3 F4).
  unfold Np.notweather.
  destruct (Np.logical_or (Np.zdrhigh zdr) (Np.rhohvlow rhohv)) as [inner|e];
    simpl; [|reflexivity].
  rewrite (run_logical_or _ _ _ (Np.reflow refl) inner).
  - destruct (Np.logical_or (Np.reflow refl) inner) as [m|e]; simpl;
      [|reflexivity].
    now rewrite flags_at_new.
  - eapply extends_flags_at; [apply extends_new | exact F1].
  - apply flags_at_new.
Qed.

(** Line 110 run on a store ends with the value-level masked array. *)
Lemma masked_where_refines (s : store) (c a : loc)
  (cond : Np.ndarray bool) (arr : Np.ndarray float) :
  flags_at s c = Some cond ->
  numbers_at s a = Some arr ->
  masked_of (masked_where c a s) = Np.masked_where cond arr.
Proof.
  intros Hc Ha. unfold masked_where, Np.masked_where.
  unfold bind at 1. rewrite (run_flags _ _ _ Hc).
  unfold bind at 1. rewrite (run_numbers _ _ _ Ha).
  unfold bind at 1. unfold new at 1.
  destruct (Np.shape_eqb _ _); [|reflexivity].
  destruct (Np.shrink_mask (Np.make_mask cond)) as [k|]; unfold bind, new, ret; simpl.
  - unfold masked_at. rewrite lookup_new.
    unfold numbers_at, flags_at.
    rewrite nth_error_app1 by (rewrite !length_app; simpl; lia).
    rewrite nth_error_app1 by (rewrite !length_app; simpl; lia).
    rewrite lookup_new.
    rewrite nth_error_app1 by (rewrite !length_app; simpl; lia).
    rewrite lookup_new. reflexivity.
  - unfold masked_at. rewrite lookup_new.
    unfold numbers_at.
    rewrite nth_error_app1 by (rewrite !length_app; simpl; lia).
    rewrite lookup_new. reflexivity.
Qed.

(** Lines 104-110 run on a store end with the value-level masked
    reflectivity. *)
Lemma qcrefl_grid_refines (s : store) (r z c : loc)
  (refl zdr rhohv : Np.ndarray float) :
  numbers_at s r = Some refl ->
  numbers_at s z = Some zdr ->
  numbers_at s c = Some rhohv ->
  masked_of (qcrefl_grid r z c s) = Np.qcrefl_grid refl zdr rhohv.
Proof.
  intros Hr Hz Hc.
  pose proof (notweather_refines s r z c refl zdr rhohv Hr Hz Hc) as R.
  pose proof (frame_notweather r z c s) as F.
  unfold qcrefl_grid, Np.qcrefl_grid, bind.
  destruct (notweather r z c s) as [s' [nw|e]]; simpl in R, F.
  - destruct (flags_at s' nw) as [m|] eqn:Fm.
    + rewrite <- R. simpl.
      apply masked_where_refines; [exact Fm|].
      eapply extends_numbers_at; eassumption.
    + symmetry in R. apply notweather_raises in R.
      destruct R as [_ R]. discriminate.
  - rewrite <- R. reflexivity.
Qed.

End StoreFacts.

(** * The properties of the quality-control mask *)

(** A literal array is rectangular: its rows are counted. *)
Ltac wf_literal :=
  split; [reflexivity | repeat (constructor; [reflexivity|]); constructor].

Section MaskProperties.

Import Np Samples.





(** C8. The two concrete scenarios: reflectivity [[25, 15]] with
    differential reflectivity [[1.0, 1.0]] and cross-correlation
    [[0.98, 0.98]] gives the mask [[false, true]], and reflectivity
    [[25, 25]] with differential reflectivity [[1.0, 3.0]] and the same
    cross-correlation gives [[false, true]] too. *)
Theorem concrete_scenarios :
  notweather (array [[25; 15]]%float) (array [[1.0; 1.0]]%float)
    (array [[0.98; 0.98]]%float)
    = Ok (array [[false; true]]) /\
  notweather (array [[25; 25]]%float) (array [[1.0; 3.0]]%float)
    (array [[0.98; 0.98]]%float)
    = Ok (array [[false; true]]).
Proof. split; vm_compute; reflexivity. Qed.

(** C9. The mask is cell-local: two runs whose inputs hold the same
    values at (i,j), whatever they hold elsewhere, give masks that agree
    at (i,j). *)
Theorem notweather_cell_local
  (refl1 zdr1 rhohv1 refl2 zdr2 rhohv2 : ndarray float) (i j : nat) :
  wf refl1 -> wf zdr1 -> wf rhohv1 ->
  shape zdr1 = shape refl1 -> shape rhohv1 = shape refl1 ->
  wf refl2 -> wf zdr2 -> wf rhohv2 ->
  shape zdr2 = shape refl2 -> shape rhohv2 = shape refl2 ->
  getitem refl1 i j = getitem refl2 i j ->
  getitem zdr1 i j = getitem zdr2 i j ->
  getitem rhohv1 i j = getitem rhohv2 i j ->
  exists mask1 mask2,
    notweather refl1 zdr1 rhohv1 = Ok mask1 /\
    notweather refl2 zdr2 rhohv2 = Ok mask2 /\
    getitem mask1 i j = getitem mask2 i j.
Proof.
  intros Wr1 Wz1 Wc1 Sz1 Sc1 Wr2 Wz2 Wc2 Sz2 Sc2 Hr Hz Hc.
  destruct (notweather_same_shape refl1 zdr1 rhohv1 Wr1 Wz1 Wc1 Sz1 Sc1)
    as (mask1 & E1 & _ & _ & G1).
  destruct (notweather_same_shape refl2 zdr2 rhohv2 Wr2 Wz2 Wc2 Sz2 Sc2)
    as (mask2 & E2 & _ & _ & G2).
  exists mask1, mask2. split; [exact E1|]. split; [exact E2|].
  now rewrite G1, G2, Hr, Hz, Hc.
Qed.

Lemma notweather_cell_local_witness :
  getitem refl_a 0 1 <> getitem refl_b 0 1 /\
  getitem zdr_a 0 1 <> getitem zdr_b 0 1 /\
  exists mask1 mask2,
    notweather refl_a zdr_a rhohv_a = Ok mask1 /\
    notweather refl_b zdr_b rhohv_a = Ok mask2 /\
    getitem mask1 0 0 = getitem mask2 0 0.
Proof.
  split; [discriminate|]. split; [discriminate|].
  apply (notweather_cell_local refl_a zdr_a rhohv_a refl_b zdr_b rhohv_a 0 0).
  - wf_literal.
  - wf_literal.
  - wf_literal.
  - reflexivity.
  - reflexivity.
  - wf_literal.
  - wf_literal.
  - wf_literal.
  - reflexivity.
  - reflexivity.
  - reflexivity.
  - reflexivity.
  - reflexivity.
Defined.

End MaskProperties.

(** * The properties of the masked grid and of the shapes *)

Section MaskedProperties.

Import Np Samples.

(** C2, as the spec states it, fails: a reflectivity grid of one ray and
    polarimetric grids of two rays are not of one shape, and the mask is
    computed all the same, the single ray being used for both. *)
Lemma shape_mismatch_broadcasts :
  shape refl_a <> shape zdr_2x2 /\
  notweather refl_a zdr_2x2 rhohv_2x2
    = Ok (array [[false; true]; [true; true]]).
Proof. split; [discriminate | vm_compute; reflexivity]. Qed.

(** C2, amended. The mask raises exactly when the three shapes cannot be
    broadcast together, that is when on some axis two of the grids have
    lengths that differ and are both other than 1, and what it raises is
    the shape error (ValueError); a mask that is returned has the
    broadcast shape; masking raises exactly when the shapes of mask and
    grid differ, and what it raises is the shape error (IndexError); under
    equal shapes neither raises; a call that raises returns no array. *)
Theorem shape_errors (refl zdr rhohv grid : ndarray float) (mask : ndarray bool) :
  (forall e, notweather refl zdr rhohv = Raise e <->
     (shapes_clash (shape zdr) (shape rhohv) \/
      shapes_clash (shape refl) (shape zdr) \/
      shapes_clash (shape refl) (shape rhohv)) /\ e = ValueError) /\
  (shape zdr = shape refl -> shape rhohv = shape refl ->
     exists m, notweather refl zdr rhohv = Ok m) /\
  (forall m, notweather refl zdr rhohv = Ok m ->
     broadcast3 (shape refl) (shape zdr) (shape rhohv) = Some (shape m)) /\
  (forall e, masked_where mask grid = Raise e <->
     shape mask <> shape grid /\ e = IndexError) /\
  (shape mask = shape grid -> exists qc, masked_where mask grid = Ok qc).
Proof.
  split; [|split; [|split; [|split]]].
  - intros e. rewrite notweather_raises, broadcast3_none. reflexivity.
  - intros Sz Sc.
    destruct (notweather refl zdr rhohv) as [m|e] eqn:E; [eauto|].
    apply notweather_raises in E. destruct E as [E _].
    rewrite Sz, Sc in E. unfold broadcast3 in E.
    rewrite !broadcast_shapes_same in E. discriminate.
  - intros m. apply notweather_ok_shape.
  - intros e. apply masked_where_raises.
  - intros Hs. rewrite (masked_where_same_shape _ _ Hs). eauto.
Qed.

Lemma shape_errors_witness :
  (exists m, notweather refl_a zdr_a rhohv_a = Ok m) /\
  (exists qc, masked_where mask_a refl_a = Ok qc) /\
  broadcast3 (shape refl_a) (shape zdr_2x2) (shape rhohv_2x2) = Some (2, 2) /\
  notweather (array [[25; 15; 5]; [25; 15; 5]]%float)
    (array [[1; 1; 1; 1]; [1; 1; 1; 1]]%float)
    (array [[1; 1; 1]; [1; 1; 1]]%float) = Raise ValueError /\
  masked_where mask_a zdr_2x2 = Raise IndexError.
Proof.
  split; [|split; [|split; [|split]]].
  - apply (shape_errors refl_a zdr_a rhohv_a refl_a mask_a); reflexivity.
  - apply (shape_errors refl_a zdr_a rhohv_a refl_a mask_a); reflexivity.
  - apply (proj1 (proj2 (proj2
             (shape_errors refl_a zdr_2x2 rhohv_2x2 refl_a mask_a)))
             (array [[false; true]; [true; true]])).
    reflexivity.
  - apply (shape_errors (array [[25; 15; 5]; [25; 15; 5]]%float)
             (array [[1; 1; 1; 1]; [1; 1; 1; 1]]%float)
             (array [[1; 1; 1]; [1; 1; 1]]%float) refl_a mask_a).
    split; [|reflexivity].
    left. right. unfold clash. simpl. lia.
  - apply (shape_errors refl_a zdr_a rhohv_a zdr_2x2 mask_a).
    split; [discriminate | reflexivity].
Defined.



(** C5. Under equal shapes the mask has the shape of the reflectivity
    grid, and so have the data and the mask of the masked grid; all of
    them are rectangular arrays of that shape. *)
Theorem shapes_preserved (refl zdr rhohv : ndarray float) (mask : ndarray bool) :
  wf refl -> wf zdr -> wf rhohv ->
  shape zdr = shape refl -> shape rhohv = shape refl ->
  wf mask -> shape mask = shape refl ->
  (exists nw, notweather refl zdr rhohv = Ok nw /\
     shape nw = shape refl /\ wf nw) /\
  (exists qc, masked_where mask refl = Ok qc /\
     shape (getdata qc) = shape refl /\ wf (getdata qc) /\
     shape (getmaskarray qc) = shape refl /\ wf (getmaskarray qc)) /\
  (exists qc, qcrefl_grid refl zdr rhohv = Ok qc /\
     shape (getdata qc) = shape refl /\ wf (getdata qc) /\
     shape (getmaskarray qc) = shape refl /\ wf (getmaskarray qc)).
Proof.
  intros Wr Wz Wc Sz Sc Wm Sm.
  assert (Masked : forall k, wf k -> shape k = shape refl ->
            exists qc, masked_where k refl = Ok qc /\
              shape (getdata qc) = shape refl /\ wf (getdata qc) /\
              shape (getmaskarray qc) = shape refl /\ wf (getmaskarray qc)).
  { intros k Wk Sk.
    rewrite (masked_where_same_shape _ _ Sk). eexists.
    split; [reflexivity|]. unfold getdata. simpl.
    split; [reflexivity|]. split; [exact Wr|].
    split; [now apply getmaskarray_shape|].
    unfold getmaskarray, shrink_mask. simpl.
    destruct (existsb _ (rows k)); simpl; [exact Wk|].
    apply (ufunc1_wf (fun _ : float => false) refl Wr). }
  destruct (notweather_same_shape refl zdr rhohv Wr Wz Wc Sz Sc)
    as (nw & E & S & W & _).
  split; [eauto|]. split; [now apply Masked|].
  unfold qcrefl_grid. rewrite E. simpl. now apply Masked.
Qed.

Lemma shapes_preserved_witness :
  (exists nw, notweather refl_a zdr_a rhohv_a = Ok nw /\
     shape nw = (1, 2) /\ wf nw) /\
  (exists qc, masked_where mask_a refl_a = Ok qc /\
     shape (getdata qc) = (1, 2) /\ wf (getdata qc) /\
     shape (getmaskarray qc) = (1, 2) /\ wf (getmaskarray qc)) /\
  (exists qc, qcrefl_grid refl_a zdr_a rhohv_a = Ok qc /\
     shape (getdata qc) = (1, 2) /\ wf (getdata qc) /\
     shape (getmaskarray qc) = (1, 2) /\ wf (getmaskarray qc)).
Proof.
  apply (shapes_preserved refl_a zdr_a rhohv_a mask_a).
  - wf_literal.
  - wf_literal.
  - wf_literal.
  - reflexivity.
  - reflexivity.
  - wf_literal.
  - reflexivity.
Defined.

(** C10. Masking flags and does not erase: the data of the masked grid
    are the input grid, at the masked cells as at the others, so taking
    the data back gives the original grid. *)
Theorem masked_where_keeps_data (mask : ndarray bool) (refl : ndarray float) :
  (shape mask = shape refl -> exists qc, masked_where mask refl = Ok qc) /\
  (forall qc, masked_where mask refl = Ok qc ->
     getdata qc = refl /\
     forall i j, getitem (getdata qc) i j = getitem refl i j).
Proof.
  split.
  - intros Hs. rewrite (masked_where_same_shape _ _ Hs). eauto.
  - intros qc H. apply masked_where_ok in H. destruct H as [_ ->].
    split; reflexivity.
Qed.

Lemma masked_where_keeps_data_witness :
  exists qc, masked_where mask_a refl_a = Ok qc /\
    ma_getitem qc 0 1 = Some masked /\
    getdata qc = refl_a /\
    getitem (getdata qc) 0 1 = Some 15%float.
Proof.
  eexists. split; [reflexivity|]. split; [reflexivity|].
  split.
  - apply (masked_where_keeps_data mask_a refl_a). reflexivity.
  - reflexivity.
Defined.

End MaskedProperties.

(** * Purity and determinism, on the store *)

Section StoreProperties.

Import Py Samples.

(** C6. Computing the mask and masking are pure. Whatever the store and
    the references, and also when the call raises, the store a call leaves
    is the old store followed by new objects, so that every object that
    was there, the three grids and the mask among them, is there
    unchanged; and what a call returns is the value-level function of the
    arrays its arguments refer to, whatever else the store holds. *)
Theorem calls_are_pure (s : store) :
  (forall r z c, exists ext, fst (notweather r z c s) = s ++ ext) /\
  (forall m a, exists ext, fst (masked_where m a s) = s ++ ext) /\
  (forall r z c, exists ext, fst (qcrefl_grid r z c s) = s ++ ext) /\
  (forall r z c l o,
     nth_error s l = Some o ->
     nth_error (fst (notweather r z c s)) l = Some o) /\
  (forall m a l o,
     nth_error s l = Some o ->
     nth_error (fst (masked_where m a s)) l = Some o) /\
  (forall r z c refl zdr rhohv,
     numbers_at s r = Some refl ->
     numbers_at s z = Some zdr ->
     numbers_at s c = Some rhohv ->
     flags_of (notweather r z c s) = Np.notweather refl zdr rhohv) /\
  (forall m a cond arr,
     flags_at s m = Some cond ->
     numbers_at s a = Some arr ->
     masked_of (masked_where m a s) = Np.masked_where cond arr) /\
  (forall r z c refl zdr rhohv,
     numbers_at s r = Some refl ->
     numbers_at s z = Some zdr ->
     numbers_at s c = Some rhohv ->
     masked_of (qcrefl_grid r z c s) = Np.qcrefl_grid refl zdr rhohv).
Proof.
  split; [|split; [|split; [|split; [|split; [|split; [|split]]]]]].
  - intros r z c. apply frame_notweather.
  - intros m a. apply frame_masked_where.
  - intros r z c. apply frame_qcrefl_grid.
  - intros r z c l o. apply extends_lookup, frame_notweather.
  - intros m a l o. apply extends_lookup, frame_masked_where.
  - intros r z c refl zdr rhohv. apply notweather_refines.
  - intros m a cond arr. apply masked_where_refines.
  - intros r z c refl zdr rhohv. apply qcrefl_grid_refines.
Qed.

Lemma calls_are_pure_witness :
  nth_error (fst (notweather 0 2 1 store_a)) 0 = Some (ONumbers refl_a) /\
  nth_error (fst (notweather 0 2 1 store_a)) 2 = Some (ONumbers zdr_a) /\
  nth_error (fst (notweather 0 2 1 store_a)) 1 = Some (ONumbers rhohv_a) /\
  flags_of (notweather 0 2 1 store_a) = Np.notweather refl_a zdr_a rhohv_a /\
  nth_error (fst (masked_where 0 3 store_a')) 0 = Some (OFlags mask_a) /\
  nth_error (fst (masked_where 0 3 store_a')) 3 = Some (ONumbers refl_a) /\
  masked_of (masked_where 0 3 store_a') = Np.masked_where mask_a refl_a.
Proof.
  destruct (calls_are_pure store_a) as (_ & _ & _ & Hn & _ & Rn & _ & _).
  destruct (calls_are_pure store_a') as (_ & _ & _ & _ & Hm & _ & Rm & _).
  split; [|split; [|split; [|split; [|split; [|split]]]]].
  - apply Hn. reflexivity.
  - apply Hn. reflexivity.
  - apply Hn. reflexivity.
  - apply Rn; reflexivity.
  - apply Hm. reflexivity.
  - apply Hm. reflexivity.
  - apply Rm; reflexivity.
Defined.

(** C7. Computing the mask is deterministic: two invocations whose
    arguments refer to the same three arrays end with the same mask (or
    the same exception), whether they run on two stores that differ
    everywhere else (two runs) or one after the other on one store (one
    run). *)
Theorem notweather_deterministic
  (s1 s2 : store) (r1 z1 c1 r2 z2 c2 : loc)
  (refl zdr rhohv : Np.ndarray float) :
  numbers_at s1 r1 = Some refl ->
  numbers_at s1 z1 = Some zdr ->
  numbers_at s1 c1 = Some rhohv ->
  numbers_at s2 r2 = Some refl ->
  numbers_at s2 z2 = Some zdr ->
  numbers_at s2 c2 = Some rhohv ->
  flags_of (notweather r1 z1 c1 s1) = flags_of (notweather r2 z2 c2 s2) /\
  flags_of (notweather r1 z1 c1 (fst (notweather r1 z1 c1 s1)))
    = flags_of (notweather r1 z1 c1 s1).
Proof.
  intros Hr1 Hz1 Hc1 Hr2 Hz2 Hc2.
  rewrite (notweather_refines s1 r1 z1 c1 refl zdr rhohv) by assumption.
  rewrite (notweather_refines s2 r2 z2 c2 refl zdr rhohv) by assumption.
  split; [reflexivity|].
  pose proof (frame_notweather r1 z1 c1 s1) as F.
  apply notweather_refines; eapply extends_numbers_at; eassumption.
Qed.

Lemma notweather_deterministic_witness :
  flags_of (notweather 0 2 1 store_a) = flags_of (notweather 3 1 4 store_a') /\
  flags_of (notweather 0 2 1 (fst (notweather 0 2 1 store_a)))
    = flags_of (notweather 0 2 1 store_a).
Proof.
  apply (notweather_deterministic store_a store_a' 0 2 1 3 1 4
           refl_a zdr_a rhohv_a); reflexivity.
Defined.

End StoreProperties.

(** * Further properties: the pipeline of lines 104-110 as a whole *)

Section PipelineFacts.

Import Np Cell.

(** One axis of the three shapes broadcasts to the reflectivity's length
    exactly when the two polarimetric lengths are that length or 1. *)
Lemma broadcast_axis_fits (r z c : nat) :
  match broadcast_dim z c with
  | Some k => broadcast_dim r k
  | None => None
  end = Some r <->
  (z = r \/ z = 1) /\ (c = r \/ c = 1).
Proof.
  unfold broadcast_dim.
  repeat (match goal with
          | |- context [Nat.eqb ?a ?b] => destruct (Nat.eqb_spec a b)
          end; simpl);
    split; intros H; try discriminate; try (injection H as H);
    try lia; try (f_equal; lia).
Qed.

Lemma broadcast3_fits (r z c : nat * nat) :
  broadcast3 r z c = Some r <-> fits z r /\ fits c r.
Proof.
  unfold fits.
  pose proof (broadcast_axis_fits (fst r) (fst z) (fst c)) as H1.
  pose proof (broadcast_axis_fits (snd r) (snd z) (snd c)) as H2.
  unfold broadcast3, broadcast_shapes in *.
  destruct r as [r1 r2]. simpl in *.
  destruct (broadcast_dim (fst z) (fst c)) as [k1|];
    destruct (broadcast_dim (snd z) (snd c)) as [k2|]; simpl.
  - destruct (broadcast_dim r1 k1) as [a|]; destruct (broadcast_dim r2 k2) as [b|].
    + split.
      * intros [= -> ->]. tauto.
      * intros H. f_equal. f_equal.
        -- assert (E : Some a = Some r1) by tauto. congruence.
        -- assert (E : Some b = Some r2) by tauto. congruence.
    + split; [discriminate|]. intros H.
      assert (E : @None nat = Some r2) by tauto. discriminate.
    + split; [discriminate|]. intros H.
      assert (E : @None nat = Some r1) by tauto. discriminate.
    + split; [discriminate|]. intros H.
      assert (E : @None nat = Some r1) by tauto. discriminate.
  - split; [discriminate|]. intros H.
    assert (E : @None nat = Some r2) by tauto. discriminate.
  - split; [discriminate|]. intros H.
    assert (E : @None nat = Some r1) by tauto. discriminate.
  - split; [discriminate|]. intros H.
    assert (E : @None nat = Some r1) by tauto. discriminate.
Qed.

(** Polarimetric grids that fit the reflectivity grid give a mask of the
    reflectivity grid's shape. *)
Lemma notweather_fits (refl zdr rhohv : ndarray float) :
  fits (shape zdr) (shape refl) -> fits (shape rhohv) (shape refl) ->
  exists mask, notweather refl zdr rhohv = Ok mask /\ shape mask = shape refl.
Proof.
  intros Fz Fc.
  assert (B : broadcast3 (shape refl) (shape zdr) (shape rhohv) = Some (shape refl))
    by (apply broadcast3_fits; auto).
  destruct (notweather refl zdr rhohv) as [mask|e] eqn:E.
  - exists mask. split; [reflexivity|].
    apply notweather_ok_shape in E. congruence.
  - apply notweather_raises in E. destruct E as [E _]. congruence.
Qed.

Lemma bcast_getitem_in_range {A : Type} (a : ndarray A) (i j : nat) :
  i < fst (shape a) -> j < snd (shape a) ->
  bcast_getitem a i j = getitem a i j.
Proof.
  intros Hi Hj. unfold bcast_getitem, bcast_index.
  assert (Ei : (if fst (shape a) =? 1 then 0 else i) = i)
    by (destruct (Nat.eqb_spec (fst (shape a)) 1); lia).
  assert (Ej : (if snd (shape a) =? 1 then 0 else j) = j)
    by (destruct (Nat.eqb_spec (snd (shape a)) 1); lia).
  now rewrite Ei, Ej.
Qed.

(** The mask, the masked grid and the cells of both, for polarimetric
    grids that fit the reflectivity grid. *)
Lemma qcrefl_grid_fits (refl zdr rhohv : ndarray float) :
  wf refl -> wf zdr -> wf rhohv ->
  fits (shape zdr) (shape refl) -> fits (shape rhohv) (shape refl) ->
  exists mask,
    notweather refl zdr rhohv = Ok mask /\
    shape mask = shape refl /\ wf mask /\
    qcrefl_grid refl zdr rhohv = Ok (mk_MaskedArray refl (shrink_mask mask)) /\
    forall i j, i < fst (shape refl) -> j < snd (shape refl) ->
      exists x y z,
        getitem refl i j = Some x /\
        bcast_getitem zdr i j = Some y /\
        bcast_getitem rhohv i j = Some z /\
        getitem mask i j =
          Some (PrimFloat.ltb x 20
                || (PrimFloat.ltb 2.3 (PrimFloat.abs y)
                    || PrimFloat.ltb z 0.95)).
Proof.
  intros Wr Wz Wc Fz Fc.
  destruct (notweather_fits refl zdr rhohv Fz Fc) as (mask & E & S).
  destruct (notweather_broadcast refl zdr rhohv mask Wr Wz Wc E) as [Wm G].
  exists mask. split; [exact E|]. split; [exact S|]. split; [exact Wm|].
  split.
  - unfold qcrefl_grid. rewrite E. simpl. now apply masked_where_same_shape.
  - intros i j Hi Hj.
    rewrite <- (bcast_getitem_in_range refl i j Hi Hj).
    rewrite <- S in Hi, Hj. apply (G i j Hi Hj).
Qed.

End PipelineFacts.

Section CompressedFacts.

Import Np.






End CompressedFacts.

Section PipelineProperties.

Import Np Cell Samples.

(** X1. How the two-step pipeline ends depends on the shapes alone: it
    returns a masked grid exactly when both polarimetric shapes fit the
    reflectivity shape (each axis has the reflectivity's length or length
    1); it raises ValueError exactly when the three shapes do not
    broadcast; it raises IndexError exactly when they broadcast to a shape
    other than the reflectivity's; a masked grid that is returned has the
    reflectivity's shape, in its data and in its mask. *)
Theorem qcrefl_grid_outcomes (refl zdr rhohv : ndarray float) :
  ((exists qc, qcrefl_grid refl zdr rhohv = Ok qc) <->
     fits (shape zdr) (shape refl) /\ fits (shape rhohv) (shape refl)) /\
  (qcrefl_grid refl zdr rhohv = Raise ValueError <->
     broadcast3 (shape refl) (shape zdr) (shape rhohv) = None) /\
  (qcrefl_grid refl zdr rhohv = Raise IndexError <->
     exists s, broadcast3 (shape refl) (shape zdr) (shape rhohv) = Some s /\
               s <> shape refl) /\
  (forall qc, qcrefl_grid refl zdr rhohv = Ok qc ->
     shape (getdata qc) = shape refl /\
     shape (getmaskarray qc) = shape refl).
Proof.
  unfold qcrefl_grid.
  destruct (notweather refl zdr rhohv) as [m|e] eqn:E; simpl.
  - pose proof (notweather_ok_shape _ _ _ _ E) as B.
    destruct (masked_where m refl) as [qc|e'] eqn:M.
    + apply masked_where_ok in M. destruct M as [S ->].
      split; [|split; [|split]].
      * split; [intros _; apply broadcast3_fits; congruence | eauto].
      * split; [discriminate | rewrite B; discriminate].
      * split; [discriminate|].
        intros (s & Hs & Hn). rewrite B in Hs. congruence.
      * intros qc [= <-].
        split; [reflexivity | now apply getmaskarray_shape].
    + apply masked_where_raises in M. destruct M as [N ->].
      split; [|split; [|split]].
      * split; [intros [qc H]; discriminate|].
        intros F. apply broadcast3_fits in F. congruence.
      * split; [discriminate | rewrite B; discriminate].
      * split; [|reflexivity].
        intros _. exists (shape m). auto.
      * intros qc. discriminate.
  - apply notweather_raises in E. destruct E as [B ->].
    split; [|split; [|split]].
    + split; [intros [qc H]; discriminate|].
      intros F. apply broadcast3_fits in F. congruence.
    + split; auto.
    + split; [discriminate|]. intros (s & Hs & _). congruence.
    + intros qc. discriminate.
Qed.

Lemma qcrefl_grid_outcomes_witness :
  (exists qc,
     qcrefl_grid (array [[25; 15]; [10; 30]]%float) zdr_a rhohv_a = Ok qc) /\
  qcrefl_grid refl_a zdr_2x2 rhohv_2x2 = Raise IndexError.
Proof.
  split.
  - apply (qcrefl_grid_outcomes (array [[25; 15]; [10; 30]]%float)
             zdr_a rhohv_a).
    unfold fits. simpl. lia.
  - apply (qcrefl_grid_outcomes refl_a zdr_2x2 rhohv_2x2).
    exists (2, 2). split; [reflexivity | discriminate].
Defined.







End PipelineProperties.

Section EdgeProperties.

Import Np Cell Samples.


Lemma no_true_iff (k : list bool) :
  existsb (fun b : bool => b) k = false <-> forallb negb k = true.
Proof.
  induction k as [|b k IH]; simpl; [tauto|].
  rewrite orb_false_iff, andb_true_iff, IH.
  destruct b; simpl; intuition congruence.
Qed.






End EdgeProperties.

(** * Further properties: the cell with its print statements *)

Section CellProperties.

Import Np Cell Samples.

Lemma getrow_wf {A : Type} (a : ndarray A) (i : nat) :
  wf a -> i < fst (shape a) ->
  exists r, getrow a i = Ok r /\ nth_error (rows a) i = Some r /\
            length r = snd (shape a).
Proof.
  intros [Hr Hc] Hi. unfold getrow.
  destruct (nth_error (rows a) i) as [r|] eqn:E.
  - exists r. repeat split.
    rewrite Forall_forall in Hc. apply Hc. eapply nth_error_In; eassumption.
  - apply nth_error_None in E. lia.
Qed.

Lemma getrow_ok_range {A : Type} (a : ndarray A) (i : nat) (r : list A) :
  wf a -> getrow a i = Ok r -> i < fst (shape a).
Proof.
  intros [Hr _]. unfold getrow.
  destruct (nth_error (rows a) i) eqn:E; [|discriminate].
  intros _. rewrite <- Hr. apply nth_error_Some. congruence.
Qed.

Lemma zip_with_unflagged (d : list float) (f : list bool) :
  length d = length f -> forallb negb f = true ->
  zip_with (fun x (b : bool) => if b then masked else number x) d f
  = map number d.
Proof.
  revert f; induction d as [|x d IH]; intros [|b f]; simpl; try discriminate;
    [reflexivity|].
  intros [= L] H. apply andb_true_iff in H. destruct H as [Hb H].
  destruct b; [discriminate|]. now rewrite IH.
Qed.

(** The row of a masked grid is the row of the data zipped with the row
    of the condition, also when the mask has been shrunk to nomask. *)
Lemma ma_getrow_masked_where (mask : ndarray bool) (refl : ndarray float)
  (i : nat) (d : list float) (f : list bool) :
  getrow refl i = Ok d -> getrow mask i = Ok f -> length d = length f ->
  ma_getrow (mk_MaskedArray refl (shrink_mask mask)) i
  = Ok (zip_with (fun x (b : bool) => if b then masked else number x) d f).
Proof.
  intros Hd Hf L. unfold ma_getrow. simpl. rewrite Hd. simpl.
  unfold shrink_mask. destruct (existsb _ (rows mask)) eqn:E.
  - rewrite Hf. reflexivity.
  - rewrite zip_with_unflagged; [reflexivity | exact L |].
    apply no_true_iff.
    unfold getrow in Hf.
    destruct (nth_error (rows mask) i) as [r|] eqn:N; [|discriminate].
    injection Hf as ->.
    destruct (existsb (fun b : bool => b) f) eqn:F; [|reflexivity].
    rewrite <- E. symmetry. apply existsb_exists.
    exists f. split; [eapply nth_error_In; eassumption | exact F].
Qed.

(** The run of the cell on grids that fit and have a first ray. *)
Lemma cell5_run (refl rhohv zdr : ndarray float) :
  wf refl -> wf zdr -> wf rhohv ->
  fits (shape zdr) (shape refl) -> fits (shape rhohv) (shape refl) ->
  0 < fst (shape refl) ->
  exists r0 n0 mask qc,
    cell5 refl rhohv zdr =
      ([PNumbers r0; PFlags n0;
        PMasked (zip_with (fun x (b : bool) => if b then masked else number x)
                   r0 n0)],
       Ok qc) /\
    getrow refl 0 = Ok r0 /\
    notweather refl zdr rhohv = Ok mask /\
    getrow mask 0 = Ok n0 /\
    qcrefl_grid refl zdr rhohv = Ok qc /\
    length r0 = snd (shape refl) /\ length n0 = snd (shape refl).
Proof.
  intros Wr Wz Wc Fz Fc Hpos.
  destruct (qcrefl_grid_fits refl zdr rhohv Wr Wz Wc Fz Fc)
    as (mask & E & S & Wm & Q & _).
  destruct (getrow_wf refl 0 Wr Hpos) as (r0 & Hr0 & _ & Lr).
  assert (Hpos' : 0 < fst (shape mask)) by now rewrite S.
  destruct (getrow_wf mask 0 Wm Hpos') as (n0 & Hn0 & _ & Ln).
  rewrite S in Ln.
  exists r0, n0, mask, (mk_MaskedArray refl (shrink_mask mask)).
  repeat (split; [|try assumption]); try assumption.
  unfold cell5, obind, olift, print, oret.
  rewrite Hr0. simpl. rewrite E. simpl. rewrite Hn0. simpl.
  rewrite (masked_where_same_shape _ _ S). simpl.
  rewrite (ma_getrow_masked_where mask refl 0 r0 n0 Hr0 Hn0) by congruence.
  reflexivity.
Qed.

(** X7. A reflectivity grid with no ray stops the cell at its first
    print statement, line 99: IndexError is raised with nothing printed
    and nothing computed, whatever the two other grids are. *)
Theorem cell5_empty_sweep (refl rhohv zdr : ndarray float) :
  wf refl -> fst (shape refl) = 0 ->
  cell5 refl rhohv zdr = ([], Raise IndexError).
Proof.
  intros [Hr _] H0. rewrite H0 in Hr.
  apply length_zero_iff_nil in Hr.
  unfold cell5, obind, olift, getrow. rewrite Hr. reflexivity.
Qed.

Lemma cell5_empty_sweep_witness :
  cell5 (mk_ndarray (0, 2) []) rhohv_a zdr_2x2 = ([], Raise IndexError).
Proof.
  apply (cell5_empty_sweep (mk_ndarray (0, 2) []) rhohv_a zdr_2x2).
  - wf_literal.
  - reflexivity.
Defined.



(** X9. The cell returns exactly when the reflectivity grid has a first
    ray and both polarimetric grids fit it; when it raises, the masked row
    of line 111 has not been printed. *)
Theorem cell5_returns_iff (refl rhohv zdr : ndarray float) :
  wf refl -> wf zdr -> wf rhohv ->
  ((exists qc, snd (cell5 refl rhohv zdr) = Ok qc) <->
     0 < fst (shape refl) /\
     fits (shape zdr) (shape refl) /\ fits (shape rhohv) (shape refl)) /\
  (forall e, snd (cell5 refl rhohv zdr) = Raise e ->
     Forall (fun p => match p with PMasked _ => False | _ => True end)
       (fst (cell5 refl rhohv zdr))).
Proof.
  intros Wr Wz Wc. split.
  - split.
    + intros [qc H]. unfold cell5, obind, olift, print, oret in H.
      destruct (getrow refl 0) as [r0|e0] eqn:R; [|discriminate].
      simpl in H.
      destruct (notweather refl zdr rhohv) as [mask|e1] eqn:N; [|discriminate].
      simpl in H.
      destruct (getrow mask 0) as [n0|e2]; [|discriminate].
      simpl in H.
      destruct (masked_where mask refl) as [q|e3] eqn:M; [|discriminate].
      split; [eapply getrow_ok_range; eassumption|].
      apply broadcast3_fits.
      apply masked_where_ok in M. destruct M as [S _].
      apply notweather_ok_shape in N. congruence.
    + intros (Hpos & Fz & Fc).
      destruct (cell5_run refl rhohv zdr Wr Wz Wc Fz Fc Hpos)
        as (r0 & n0 & mask & qc & C & _).
      exists qc. now rewrite C.
  - intros e. unfold cell5, obind, olift, print, oret.
    destruct (getrow refl 0) as [r0|e0] eqn:R; simpl; [|constructor].
    destruct (notweather refl zdr rhohv) as [mask|e1] eqn:N; simpl;
      [|repeat constructor].
    destruct (getrow mask 0) as [n0|e2] eqn:G; simpl; [|repeat constructor].
    destruct (masked_where mask refl) as [q|e3] eqn:M; simpl;
      [|repeat constructor].
    apply masked_where_ok in M. destruct M as [S ->].
    pose proof (notweather_broadcast _ _ _ _ Wr Wz Wc N) as [Wm _].
    assert (L : length r0 = length n0).
    { pose proof (getrow_ok_range _ _ _ Wr R) as Hi.
      destruct (getrow_wf refl 0 Wr Hi) as (r & Hr & _ & Lr).
      pose proof (getrow_ok_range _ _ _ Wm G) as Hi'.
      destruct (getrow_wf mask 0 Wm Hi') as (n & Hn & _ & Ln).
      congruence. }
    rewrite (ma_getrow_masked_where mask refl 0 r0 n0 R G L). simpl.
    discriminate.
Qed.

Lemma cell5_returns_iff_witness :
  (exists qc, snd (cell5 refl_a rhohv_a zdr_a) = Ok qc) /\
  Forall (fun p => match p with PMasked _ => False | _ => True end)
    (fst (cell5 refl_a rhohv_2x2 zdr_2x2)) /\
  cell5 refl_a rhohv_2x2 zdr_2x2 =
    ([PNumbers [25; 15]%float; PFlags [false; true]], Raise IndexError).
Proof.
  split; [|split].
  - apply (cell5_returns_iff refl_a rhohv_a zdr_a);
      [wf_literal | wf_literal | wf_literal |].
    unfold fits. simpl. lia.
  - apply (proj2 (cell5_returns_iff refl_a rhohv_2x2 zdr_2x2
                    ltac:(wf_literal) ltac:(wf_literal) ltac:(wf_literal))
             IndexError).
    reflexivity.
  - reflexivity.
Defined.

End CellProperties.

(** * Further properties: the plotting loops *)

Section PlotProperties.

Import Plots.







End PlotProperties.

(** * Further properties: the masked grid shares nothing with its inputs *)

Section StoreAliasing.

Import Py Samples.







End StoreAliasing.
